(** * take_before: a shallow embedding of [beman::take_before]

    The development follows [include/beman/take_before/take_before.hpp]:
    the type predicates ([tidy_obj], [enable_borrowed_range]), the class
    template [take_before_view] with its nested [sentinel<Const>], and the
    adaptor object [views::take_before] with its closure.

    The Source Sequence collaborator is modelled by finite sequences
    ([list Elem]); a cursor is the sequence together with an index, and the
    underlying true end is the index one past the last element.  The
    elements a cursor ranges over are taken to stay alive and unchanged
    while the cursor is in use, whoever owns them.  View
    objects live in a store, because the end marker of a non-tidy value
    type keeps the address of the value stored inside the view. *)

From stdpp Require Import base numbers option list gmap.

Set Default Proof Using "Type".

(** ** Outcomes and the store monad *)

(** A C++ evaluation either produces a value, has undefined behaviour, or
    (for the fuelled loop below) is cut off. *)
Inductive outcome (A : Type) : Type :=
  | Ok (a : A)
  | Undefined
  | OutOfFuel.
Arguments Ok {A} a.
Arguments Undefined {A}.
Arguments OutOfFuel {A}.

(** Computations over a store [Σ] of objects. *)
Definition St (Σ A : Type) : Type := Σ → outcome (A * Σ).

Definition ret {Σ A} (a : A) : St Σ A := λ σ, Ok (a, σ).
Definition bind {Σ A B} (m : St Σ A) (k : A → St Σ B) : St Σ B :=
  λ σ, match m σ with
       | Ok (a, σ') => k a σ'
       | Undefined => Undefined
       | OutOfFuel => OutOfFuel
       end.
Notation "'let*' x := m 'in' k" := (bind m (λ x, k))
  (at level 10, x pattern, m at level 100, k at level 200, only parsing).

Definition lift {Σ A} (o : outcome A) : St Σ A :=
  λ σ, match o with
       | Ok a => Ok (a, σ)
       | Undefined => Undefined
       | OutOfFuel => OutOfFuel
       end.

(** Object identities (addresses of view objects). *)
Definition loc := nat.

(** [const T*]: either [nullptr] or the address of the value held by the
    view object at the given location. *)
Definition ptr := option loc.
Definition nullptr : ptr := None.

(** ** Type predicates *)

(** The three [<type_traits>] queries used by [tidy_obj]. *)
Record type_traits := {
  is_empty : bool;
  is_trivially_default_constructible : bool;
  is_trivially_destructible : bool
}.

(** [template <class T> constexpr bool tidy_obj]. *)
Definition tidy_obj (T : type_traits) : bool :=
  is_empty T && is_trivially_default_constructible T && is_trivially_destructible T.

(** What the view needs to know about the type [V] of its source. *)
Record range_traits := {
  enable_borrowed_range : bool;   (* std::ranges::enable_borrowed_range<V> *)
  simple_view : bool;             (* simple_view<V> *)
  range_const : bool;             (* std::ranges::range<const V> *)
  default_initializable_V : bool  (* std::default_initializable<V> *)
}.

(** The partial specialisation
    [enable_borrowed_range<take_before_view<V, T>>]. *)
Definition take_before_view_enable_borrowed_range
    (V : range_traits) (T : type_traits) : bool :=
  enable_borrowed_range V && tidy_obj T.

(** ** The value type [T]

    [T] is compared against elements with [std::ranges::equal_to]; [T()]
    exists when [T] is default-initializable.  The two laws record what the
    traits mean for values: a trivially default-constructible type has a
    default constructor, and an empty type has no state, so any two of its
    objects are the same value. *)
Class ValueType (T Elem : Type) := {
  traits : type_traits;
  value_init : option T;
  equal_to : T → Elem → bool;
  value_init_trivial :
    is_trivially_default_constructible traits = true → is_Some value_init;
  empty_stateless :
    is_empty traits = true → ∀ a b : T, a = b
}.

(** [std::default_initializable<T>]. *)
Definition default_initializable_T {T Elem} `{ValueType T Elem} : bool :=
  bool_decide (is_Some value_init).

(** [movable_box<T>] is [std::optional<T>] in this implementation. *)
Definition movable_box (T : Type) : Type := option T.

(** [std::copy_constructible<T>]. *)
Class CopyConstructible (T : Type) : Type := copy_constructible : bool.


Section take_before.
Context {T Elem : Type} `{VT : ValueType T Elem} {CC : CopyConstructible T}.
Variable V : range_traits.

(** *** The source sequence: cursors and true end *)

(** [iterator_t<maybe_const<Const, V>>]. *)
Record iterator (Const : bool) := Iterator {
  it_seq : list Elem;
  it_pos : nat
}.
Global Arguments Iterator {Const} _ _.
Global Arguments it_seq {Const} _.
Global Arguments it_pos {Const} _.

(** [sentinel_t<maybe_const<Const, V>>]: the index one past the end. *)
Definition base_sentinel (Const : bool) : Type := nat.

Definition ranges_begin (Const : bool) (base : list Elem) : iterator Const :=
  Iterator base 0.
Definition ranges_end (Const : bool) (base : list Elem) : base_sentinel Const :=
  length base.

(** [end == x] on the source. *)
Definition base_sentinel_eq {C1 C2} (e : base_sentinel C1) (x : iterator C2) : bool :=
  bool_decide (e = it_pos x).

(** [*x]: defined only on a dereferenceable cursor. *)
Definition deref {Const} (x : iterator Const) : outcome Elem :=
  match it_seq x !! it_pos x with
  | Some e => Ok e
  | None => Undefined
  end.

(** [++x]. *)
Definition incr {Const} (x : iterator Const) : iterator Const :=
  Iterator (it_seq x) (S (it_pos x)).

(** *** [take_before_view<V, T>] *)

Record take_before_view := TakeBeforeView {
  base_ : list Elem;
  value_ : movable_box T
}.

(** [take_before_view() = default]: [base_ = V()], and [value_] is a
    default-constructed [std::optional<T>], which holds no value.  What
    [V()] holds depends on [V] (nothing for an [owning_view] of a vector,
    one element for [single_view<int>]), so it is an argument. *)
Definition take_before_view_default_requires : bool :=
  default_initializable_V V && default_initializable_T.
Definition take_before_view_default (V_init : list Elem) : take_before_view :=
  {| base_ := V_init; value_ := None |}.

(** [take_before_view(V base, const T& value)] and
    [take_before_view(V base, T&& value)]: both store the sequence and
    engage the box with the given value. *)
Definition take_before_view_ctor (base : list Elem) (value : T) : take_before_view :=
  {| base_ := base; value_ := Some value |}.


(** [base() const&]. *)
Definition base (v : take_before_view) : list Elem := base_ v.

(** *** The store of view objects *)

Local Abbreviation M := (St (gmap loc take_before_view)).

(** A declaration [take_before_view v(...)] placing the object at [this]. *)
Definition construct_at (this : loc) (v : take_before_view) : M unit :=
  λ σ, Ok ((), <[this := v]> σ).

(** Access to the object at [this]; a dangling handle is undefined. *)
Definition read_view (this : loc) : M take_before_view :=
  λ σ, match σ !! this with
       | Some v => Ok (v, σ)
       | None => Undefined
       end.

(** [*value_] on [std::optional]: the box must hold a value. *)
Definition box_deref (b : movable_box T) : outcome T :=
  match b with
  | Some t => Ok t
  | None => Undefined
  end.

(** [*p] for [const T* p] pointing into a view object. *)
Definition load (p : ptr) : M T :=
  match p with
  | None => lift Undefined
  | Some a => let* v := read_view a in lift (box_deref (value_ v))
  end.

(** [T()]. *)
Definition fresh_T : outcome T :=
  match value_init with
  | Some d => Ok d
  | None => Undefined
  end.

(** *** [take_before_view::sentinel<Const>] *)

Record sentinel (Const : bool) := Sentinel {
  end_ : base_sentinel Const;
  sentinel_value_ : ptr   (* [value_]; meaningful only if [tidy_obj<T>] is false *)
}.
Global Arguments Sentinel {Const} _ _.
Global Arguments end_ {Const} _.
Global Arguments sentinel_value_ {Const} _.

(** The private constructors: [sentinel(end, value)] for a non-tidy [T],
    [sentinel(end)] for a tidy one (the pointer keeps its default member
    initialiser). *)
Definition sentinel_ctor_value {Const} (e : base_sentinel Const) (value : ptr) : sentinel Const :=
  Sentinel e value.
Definition sentinel_ctor {Const} (e : base_sentinel Const) : sentinel Const :=
  Sentinel e nullptr.

(** [convertible_to<sentinel_t<V>, sentinel_t<Base>>]: both are indices. *)
Definition base_sentinel_convert (Const : bool)
    (e : base_sentinel (negb Const)) : base_sentinel Const := e.

(** [sentinel(sentinel<!Const> s) requires Const && convertible_to<...>]:
    the constructor takes part in overload resolution only for [Const]. *)
Definition sentinel_convert_requires (Const : bool) : bool := Const.

Definition sentinel_convert (Const : bool) (s : sentinel (negb Const)) : option (sentinel Const) :=
  if sentinel_convert_requires Const then
    Some {| end_ := base_sentinel_convert Const (end_ s);
            sentinel_value_ :=
              if negb (tidy_obj traits) then sentinel_value_ s else nullptr |}
  else None.


(** The body shared by both [operator==] overloads, with the
    [if constexpr (tidy_obj<T>)] branch selected by [tidy].  [||] does not
    evaluate its right operand when the left one is true. *)
Definition sentinel_eq_impl (tidy : bool) {C1 C2}
    (x : iterator C1) (y : sentinel C2) : M bool :=
  if tidy then
    if base_sentinel_eq (end_ y) x then ret true
    else
      let* t := lift fresh_T in
      let* e := lift (deref x) in
      ret (equal_to t e)
  else
    if base_sentinel_eq (end_ y) x then ret true
    else
      let* t := load (sentinel_value_ y) in
      let* e := lift (deref x) in
      ret (equal_to t e).

(** [operator==(const iterator_t<Base>& x, const sentinel& y)]. *)
Definition sentinel_eq {Const} (x : iterator Const) (y : sentinel Const) : M bool :=
  sentinel_eq_impl (tidy_obj traits) x y.

(** [operator==(const iterator_t<maybe_const<OtherConst, V>>& x,
    const sentinel& y)] with [OtherConst = !Const]. *)
Definition sentinel_eq_other {Const} (x : iterator (negb Const)) (y : sentinel Const) : M bool :=
  sentinel_eq_impl (tidy_obj traits) x y.

(** [y == x]: C++20 rewrites it to the reversed candidate [x == y];
    [x != y] is the negation of [x == y]. *)
Definition sentinel_eq_rev {Const} (y : sentinel Const) (x : iterator Const) : M bool :=
  sentinel_eq x y.
Definition sentinel_ne {Const} (x : iterator Const) (y : sentinel Const) : M bool :=
  let* b := sentinel_eq x y in ret (negb b).

(** *** [begin] and [end] of the view *)

(** The non-const overloads require [!simple_view<V>], the const ones
    [range<const V>] (and comparability of the const cursor). *)
Definition begin_end_requires (Const : bool) : bool :=
  if Const then range_const V else negb (simple_view V).

(** [begin()] / [begin() const]. *)
Definition view_begin (Const : bool) (this : loc) : M (iterator Const) :=
  let* v := read_view this in
  ret (ranges_begin Const (base_ v)).

(** [end()] / [end() const]. *)
Definition view_end (Const : bool) (this : loc) : M (sentinel Const) :=
  let* v := read_view this in
  if tidy_obj traits then
    ret (sentinel_ctor (ranges_end Const (base_ v)))
  else
    let* _ := lift (box_deref (value_ v)) in
    ret (sentinel_ctor_value (ranges_end Const (base_ v)) (Some this)).

(** *** Traversal

    The range-based [for] of the examples and tests:
    [for (auto it = v.begin(), e = v.end(); it != e; ++it)] visiting [*it],
    collecting the visited elements and the cursor at which it stops. *)
Fixpoint for_loop (fuel : nat) {Const} (it : iterator Const) (e : sentinel Const)
    : M (list Elem * iterator Const) :=
  match fuel with
  | 0 => lift OutOfFuel
  | S fuel' =>
      let* continue := sentinel_ne it e in
      if continue then
        let* x := lift (deref it) in
        let* (xs, last) := for_loop fuel' (incr it) e in
        ret (x :: xs, last)
      else ret ([], it)
  end.

Definition range_for (Const : bool) (this : loc) : M (list Elem * iterator Const) :=
  let* it := view_begin Const this in
  let* e := view_end Const this in
  for_loop (S (length (it_seq it))) it e.

(** *** [views::take_before] *)

(** [views::all(r)] keeps the same elements. *)
Definition views_all (r : list Elem) : list Elem := r.

(** Overload 1: the view that [take_before(r, value)] builds. *)
Definition take_before (r : list Elem) (value : T) : take_before_view :=
  take_before_view_ctor (views_all r) value.







End take_before.

(** ** Two value types

    [int] compared with [int] elements (not tidy: it has storage), and an
    empty constant wrapper in the style of [std::integral_constant<int, 3>]
    whose every object compares equal to the element 3 (tidy). *)

Definition int_traits : type_traits :=
  {| is_empty := false;
     is_trivially_default_constructible := true;
     is_trivially_destructible := true |}.

#[export] Program Instance int_ValueType : ValueType Z Z :=
  {| traits := int_traits; value_init := Some 0%Z; equal_to := Z.eqb |}.
Next Obligation. intros _. by eexists. Qed.
Next Obligation. intros H. discriminate H. Qed.

Definition three_c_traits : type_traits :=
  {| is_empty := true;
     is_trivially_default_constructible := true;
     is_trivially_destructible := true |}.

#[export] Program Instance three_c_ValueType : ValueType unit Z :=
  {| traits := three_c_traits; value_init := Some ();
     equal_to := λ _ e, Z.eqb 3 e |}.
Next Obligation. intros _. by eexists. Qed.
Next Obligation. intros _ [] []. reflexivity. Qed.

#[export] Instance int_CopyConstructible : CopyConstructible Z := true.
#[export] Instance three_c_CopyConstructible : CopyConstructible unit := true.

(** A move-only value type: a handle that owns an [int] (in the style of
    a wrapper around [std::unique_ptr<int>]) and compares with [int]
    elements by the [int] it owns.  It cannot be copied or
    default-constructed. *)
Record move_only_int := MoveOnly { owned : Z }.

Definition move_only_int_traits : type_traits :=
  {| is_empty := false;
     is_trivially_default_constructible := false;
     is_trivially_destructible := false |}.

#[export] Program Instance move_only_int_ValueType : ValueType move_only_int Z :=
  {| traits := move_only_int_traits; value_init := None;
     equal_to := λ m e, Z.eqb (owned m) e |}.
Next Obligation. intros H. discriminate H. Qed.
Next Obligation. intros H. discriminate H. Qed.

#[export] Instance move_only_int_CopyConstructible :
  CopyConstructible move_only_int := false.

(** A borrowed, simple source (such as [std::string_view] or a
    [subrange] of pointers) and an owning one. *)
Definition borrowed_source : range_traits :=
  {| enable_borrowed_range := true; simple_view := true;
     range_const := true; default_initializable_V := true |}.
Definition owning_source : range_traits :=
  {| enable_borrowed_range := false; simple_view := false;
     range_const := true; default_initializable_V := true |}.

(** ** Notions used to state the properties *)

(** A computation that hands back the store it was given. *)
Definition preserves_store {Σ A} (m : St Σ A) : Prop :=
  ∀ σ a σ', m σ = Ok (a, σ') → σ' = σ.

Section notions.
Context {T Elem : Type} `{VT : ValueType T Elem}.
Implicit Types (σ : gmap loc (@take_before_view T Elem)) (xs : list Elem).
Implicit Types (t : T) (this : loc) (p : nat).

(** The expected result of comparing the end marker with the cursor at
    index [p] of [xs]: equal when [p] is the exhaustion point or the element
    there equals [t]. *)
Definition stops_at t xs p : bool :=
  bool_decide (p = length xs) || from_option (equal_to t) false (xs !! p).

(** A marker [y] stands for the end of [xs] and the value [t] in [σ]. *)
Definition marker_of σ {Const} (y : sentinel Const) xs t : Prop :=
  end_ y = length xs ∧
  (tidy_obj traits = false → load (sentinel_value_ y) σ = Ok (t, σ)).

(** The marker that [end] builds for a view holding [xs] and [t]. *)
Definition end_marker (Const : bool) this xs : sentinel Const :=
  if tidy_obj traits then sentinel_ctor (ranges_end Const xs)
  else sentinel_ctor_value (ranges_end Const xs) (Some this).

(** Two traversals of the same view object, one after the other. *)
Definition range_for_twice (Const : bool) this
    : St (gmap loc (@take_before_view T Elem)) _ :=
  let* r1 := range_for Const this in
  let* r2 := range_for Const this in
  ret (r1, r2).

End notions.

(** A store holding one [int] view, at address 0. *)
Definition at0 (v : @take_before_view Z Z) : gmap loc (@take_before_view Z Z) :=
  {[ 0%nat := v ]}.

(** The value a computation returns, without the store it leaves. *)
Definition result {Σ A} (o : outcome (A * Σ)) : outcome A :=
  match o with
  | Ok (a, _) => Ok a
  | Undefined => Undefined
  | OutOfFuel => OutOfFuel
  end.

(** The end of the lifetime of the object at [this]. *)
Definition destroy_at {T Elem} (this : loc)
    : St (gmap loc (@take_before_view T Elem)) unit :=
  λ σ, Ok ((), delete this σ).

(** Reference function: the elements of [xs] before the first one that
    [x] compares equal to. *)
Fixpoint prefix_before {T Elem} `{ValueType T Elem} (x : T) (xs : list Elem)
    : list Elem :=
  match xs with
  | [] => []
  | e :: rest => if equal_to x e then [] else e :: prefix_before x rest
  end.

(** ** The view over a cursor with no reachable end

    Overload 2 of [views::take_before] wraps a cursor [i] as
    [subrange(i, unreachable_sentinel)] and builds a [take_before_view]
    over it.  The definitions below are [take_before_view<V, T>] and its
    [sentinel] at that [V].  A [subrange] is a simple view, so only the
    const overloads of [begin] and [end] and only [sentinel<true>] exist;
    its cursors are cursors into the underlying buffer, and dereferencing
    one past the buffer is undefined. *)
Module Unbounded.
Section unbounded.
Context {T Elem : Type} `{VT : ValueType T Elem}.

(** [std::unreachable_sentinel_t]: compares unequal to every cursor. *)
Definition unreachable_sentinel_t : Type := unit.
Definition unreachable_sentinel : unreachable_sentinel_t := ().
Definition unreachable_eq {Const} (e : unreachable_sentinel_t)
    (x : iterator (Elem:=Elem) Const) : bool := false.

(** [std::ranges::subrange<I, std::unreachable_sentinel_t>]. *)
Record subrange := Subrange {
  first_ : iterator (Elem:=Elem) true;
  last_ : unreachable_sentinel_t
}.
Definition ranges_begin (r : subrange) : iterator true := first_ r.
Definition ranges_end (r : subrange) : unreachable_sentinel_t := last_ r.

Record take_before_view := TakeBeforeView {
  base_ : subrange;
  value_ : movable_box T
}.

Definition take_before_view_ctor (base : subrange) (value : T) : take_before_view :=
  {| base_ := base; value_ := Some value |}.

Local Abbreviation M := (St (gmap loc take_before_view)).

Definition construct_at (this : loc) (v : take_before_view) : M unit :=
  λ σ, Ok ((), <[this := v]> σ).

Definition read_view (this : loc) : M take_before_view :=
  λ σ, match σ !! this with
       | Some v => Ok (v, σ)
       | None => Undefined
       end.

Definition load (p : ptr) : M T :=
  match p with
  | None => lift Undefined
  | Some a => let* v := read_view a in lift (box_deref (value_ v))
  end.

(** [sentinel<true>] at this [V]. *)
Record sentinel := Sentinel {
  end_ : unreachable_sentinel_t;
  sentinel_value_ : ptr
}.

Definition sentinel_eq_impl (tidy : bool) {Const}
    (x : iterator (Elem:=Elem) Const) (y : sentinel) : M bool :=
  if tidy then
    if unreachable_eq (end_ y) x then ret true
    else
      let* t := lift fresh_T in
      let* e := lift (deref x) in
      ret (equal_to t e)
  else
    if unreachable_eq (end_ y) x then ret true
    else
      let* t := load (sentinel_value_ y) in
      let* e := lift (deref x) in
      ret (equal_to t e).

Definition sentinel_eq (x : iterator true) (y : sentinel) : M bool :=
  sentinel_eq_impl (tidy_obj traits) x y.
Definition sentinel_ne (x : iterator true) (y : sentinel) : M bool :=
  let* b := sentinel_eq x y in ret (negb b).

(** [begin() const]. *)
Definition view_begin (this : loc) : M (iterator true) :=
  let* v := read_view this in
  ret (ranges_begin (base_ v)).

(** [end() const]. *)
Definition view_end (this : loc) : M sentinel :=
  let* v := read_view this in
  if tidy_obj traits then
    ret (Sentinel (ranges_end (base_ v)) nullptr)
  else
    let* _ := lift (box_deref (value_ v)) in
    ret (Sentinel (ranges_end (base_ v)) (Some this)).

(** The range-based [for], as for the bounded view. *)
Fixpoint for_loop (fuel : nat) (it : iterator true) (e : sentinel)
    : M (list Elem * iterator true) :=
  match fuel with
  | 0 => lift OutOfFuel
  | S fuel' =>
      let* continue := sentinel_ne it e in
      if continue then
        let* x := lift (deref it) in
        let* (xs, last) := for_loop fuel' (incr it) e in
        ret (x :: xs, last)
      else ret ([], it)
  end.

Definition range_for (this : loc) : M (list Elem * iterator true) :=
  let* it := view_begin this in
  let* e := view_end this in
  for_loop (S (length (it_seq it) - it_pos it)) it e.

(** Overload 2: [take_before(i, value)]. *)
Definition take_before (i : iterator true) (value : T) : take_before_view :=
  take_before_view_ctor (Subrange i unreachable_sentinel) value.

End unbounded.
End Unbounded.

(** * Properties *)

(** ** The borrowing trait *)

Lemma tidy_obj_true (T : type_traits) :
  tidy_obj T = true ↔
  is_empty T = true ∧ is_trivially_default_constructible T = true
  ∧ is_trivially_destructible T = true.
Proof. unfold tidy_obj. rewrite !andb_true_iff. tauto. Qed.

(** C3: [take_before_view<V, T>] is a borrowed range exactly when [V] is
    borrowed and [T] is empty, trivially default-constructible and
    trivially destructible; with a non-tidy [T] it never is, whatever [V]. *)
Theorem borrowed_iff_borrowed_source_and_tidy (V : range_traits) (T : type_traits) :
  (take_before_view_enable_borrowed_range V T = true ↔
     enable_borrowed_range V = true ∧
     (is_empty T = true ∧ is_trivially_default_constructible T = true
      ∧ is_trivially_destructible T = true))
  ∧ (tidy_obj T = false → take_before_view_enable_borrowed_range V T = false).
Proof.
  unfold take_before_view_enable_borrowed_range. split.
  - rewrite andb_true_iff, tidy_obj_true. tauto.
  - intros ->. apply andb_false_r.
Qed.

Example borrowed_string_view_int :
  take_before_view_enable_borrowed_range borrowed_source int_traits = false.
Proof. reflexivity. Qed.

Example borrowed_string_view_three_c :
  take_before_view_enable_borrowed_range borrowed_source three_c_traits = true.
Proof. reflexivity. Qed.

(** ** Running computations *)

Lemma bind_Ok {Σ A B} (m : St Σ A) (k : A → St Σ B) σ a σ' :
  m σ = Ok (a, σ') → bind m k σ = k a σ'.
Proof. unfold bind. by intros ->. Qed.

Lemma bind_not_cut {Σ A B} (m : St Σ A) (k : A → St Σ B) σ :
  m σ ≠ OutOfFuel → (∀ a σ', m σ = Ok (a, σ') → k a σ' ≠ OutOfFuel) →
  bind m k σ ≠ OutOfFuel.
Proof.
  intros Hm Hk. unfold bind. destruct (m σ) as [[a σ']| |]; [by apply Hk|done..].
Qed.

Section properties.
Context {T Elem : Type} `{VT : ValueType T Elem}.
Implicit Types (σ : gmap loc (@take_before_view T Elem)) (xs : list Elem).
Implicit Types (t : T) (this : loc) (p : nat).

Lemma stops_at_true t xs p :
  stops_at t xs p = true ↔
  p = length xs ∨ ∃ e, xs !! p = Some e ∧ equal_to t e = true.
Proof.
  unfold stops_at. rewrite orb_true_iff, bool_decide_eq_true.
  destruct (xs !! p) as [e|]; simpl; split; intros [?|?]; auto.
  - right. by exists e.
  - right. by destruct H as (? & [= ->] & ?).
  - discriminate.
  - by destruct H as (? & ? & ?).
Qed.

Lemma tidy_fresh t : tidy_obj traits = true → fresh_T = Ok t.
Proof.
  intros (He & Hd & _)%tidy_obj_true. unfold fresh_T.
  destruct (value_init_trivial Hd) as [d ->].
  by rewrite (empty_stateless He d t).
Qed.

Lemma read_view_run σ this v :
  σ !! this = Some v → read_view this σ = Ok (v, σ).
Proof. unfold read_view. by intros ->. Qed.

Lemma load_run σ this v t :
  σ !! this = Some v → value_ v = Some t → load (Some this) σ = Ok (t, σ).
Proof.
  intros Hv Ht. unfold load.
  rewrite (bind_Ok _ _ _ _ _ (read_view_run _ _ _ Hv)). by rewrite Ht.
Qed.

Lemma sentinel_eq_impl_free_run σ {C1 C2} (y : sentinel C2) xs t p :
  end_ y = length xs → fresh_T = Ok t → p ≤ length xs →
  sentinel_eq_impl true (Iterator (Const:=C1) xs p) y σ = Ok (stops_at t xs p, σ).
Proof.
  intros Hend Ht Hp. unfold sentinel_eq_impl, stops_at, base_sentinel_eq.
  rewrite Hend. simpl. rewrite (bool_decide_ext _ (p = length xs)) by done.
  case_bool_decide as Hpe; [done|]. simpl.
  destruct (lookup_lt_is_Some_2 xs p) as [e He]; [lia|].
  unfold bind, lift, deref, ret. simpl. by rewrite Ht, He.
Qed.

Lemma sentinel_eq_impl_carry_run σ {C1 C2} (y : sentinel C2) xs t p :
  end_ y = length xs → load (sentinel_value_ y) σ = Ok (t, σ) → p ≤ length xs →
  sentinel_eq_impl false (Iterator (Const:=C1) xs p) y σ = Ok (stops_at t xs p, σ).
Proof.
  intros Hend Ht Hp. unfold sentinel_eq_impl, stops_at, base_sentinel_eq.
  rewrite Hend. simpl. rewrite (bool_decide_ext _ (p = length xs)) by done.
  case_bool_decide as Hpe; [done|]. simpl.
  destruct (lookup_lt_is_Some_2 xs p) as [e He]; [lia|].
  rewrite (bind_Ok _ _ _ _ _ Ht).
  unfold bind, lift, deref, ret. simpl. by rewrite He.
Qed.

Lemma sentinel_eq_impl_run σ {C1 C2} (y : sentinel C2) xs t p :
  marker_of σ y xs t → p ≤ length xs →
  sentinel_eq_impl (tidy_obj traits) (Iterator (Const:=C1) xs p) y σ
  = Ok (stops_at t xs p, σ).
Proof.
  intros [Hend Hval] Hp. destruct (tidy_obj traits) eqn:Htidy.
  - apply sentinel_eq_impl_free_run; auto using tidy_fresh.
  - apply sentinel_eq_impl_carry_run; auto.
Qed.

Lemma view_begin_run σ this v Const :
  σ !! this = Some v →
  view_begin Const this σ = Ok (ranges_begin Const (base_ v), σ).
Proof.
  intros Hv. unfold view_begin.
  by rewrite (bind_Ok _ _ _ _ _ (read_view_run _ _ _ Hv)).
Qed.

Lemma view_end_run σ this v t Const :
  σ !! this = Some v → value_ v = Some t →
  view_end Const this σ = Ok (end_marker Const this (base_ v), σ).
Proof.
  intros Hv Ht. unfold view_end, end_marker.
  rewrite (bind_Ok _ _ _ _ _ (read_view_run _ _ _ Hv)).
  destruct (tidy_obj traits); [done|]. by rewrite Ht.
Qed.

Lemma end_marker_of σ this v t Const :
  σ !! this = Some v → value_ v = Some t →
  marker_of σ (end_marker Const this (base_ v)) (base_ v) t.
Proof.
  intros Hv Ht. unfold marker_of, end_marker.
  destruct (tidy_obj traits); simpl; split; try done.
  intros _. by apply load_run with v.
Qed.

(** ** The traversal loop *)

Lemma sentinel_ne_run σ {Const} (y : sentinel Const) xs t p :
  marker_of σ y xs t → p ≤ length xs →
  sentinel_ne (Iterator xs p) y σ = Ok (negb (stops_at t xs p), σ).
Proof.
  intros Hy Hp. unfold sentinel_ne, sentinel_eq.
  by rewrite (bind_Ok _ _ _ _ _ (sentinel_eq_impl_run _ _ _ _ _ Hy Hp)).
Qed.

(** From index [i], the loop visits the elements up to the first index
    [p] at which the marker compares equal, and stops there. *)
Lemma for_loop_run σ {Const} (y : sentinel Const) xs t p :
  marker_of σ y xs t → p ≤ length xs → stops_at t xs p = true →
  ∀ fuel i, i ≤ p → (∀ j, i ≤ j < p → stops_at t xs j = false) →
    p - i < fuel →
    for_loop fuel (Iterator xs i) y σ
    = Ok ((take (p - i) (drop i xs), Iterator xs p), σ).
Proof.
  intros Hy Hp Hstop. induction fuel as [|fuel IH]; intros i Hi Hgo Hfuel; [lia|].
  simpl.
  rewrite (bind_Ok _ _ _ _ _ (sentinel_ne_run σ y xs t i Hy ltac:(lia))).
  destruct (decide (i = p)) as [->|Hne].
  - rewrite Hstop. simpl. by rewrite Nat.sub_diag.
  - rewrite Hgo by lia. simpl.
    destruct (lookup_lt_is_Some_2 xs i) as [e He]; [lia|].
    unfold deref at 1. simpl. rewrite He.
    unfold lift at 1, bind at 1. unfold incr. simpl.
    rewrite (bind_Ok _ _ _ _ _ (IH (S i) ltac:(lia) ltac:(intros; apply Hgo; lia) ltac:(lia))).
    unfold ret. rewrite (drop_S _ _ _ He).
    by replace (p - i) with (S (p - S i)) by lia.
Qed.

(** The traversal of a view holding [xs] and [t], when [p] is the first
    index at which the marker compares equal. *)
Lemma range_for_run σ this v t Const p :
  σ !! this = Some v → value_ v = Some t →
  p ≤ length (base_ v) → stops_at t (base_ v) p = true →
  (∀ j, j < p → stops_at t (base_ v) j = false) →
  range_for Const this σ = Ok ((take p (base_ v), Iterator (base_ v) p), σ).
Proof.
  intros Hv Ht Hp Hstop Hgo. unfold range_for.
  rewrite (bind_Ok _ _ _ _ _ (view_begin_run _ _ _ Const Hv)).
  rewrite (bind_Ok _ _ _ _ _ (view_end_run _ _ _ _ Const Hv Ht)).
  pose proof (for_loop_run σ _ (base_ v) t p
                (end_marker_of _ _ _ _ Const Hv Ht) Hp Hstop
                (S (length (base_ v))) 0) as Hrun.
  rewrite Nat.sub_0_r, drop_0 in Hrun.
  apply Hrun; [lia|intros; apply Hgo; lia|lia].
Qed.

(** The fuel [range_for] supplies is never what ends a traversal: a cursor
    that runs past the sequence is undefined before the fuel is spent. *)
Lemma sentinel_eq_impl_not_cut tidy {C1 C2} (it : iterator C1) (y : sentinel C2) σ :
  sentinel_eq_impl tidy it y σ ≠ OutOfFuel.
Proof.
  unfold sentinel_eq_impl, load, read_view, fresh_T, deref, box_deref,
    bind, lift, ret.
  repeat case_match; congruence.
Qed.

Lemma for_loop_not_cut {Const} (y : sentinel Const) fuel :
  ∀ σ (it : iterator Const),
    length (it_seq it) - it_pos it < fuel → for_loop fuel it y σ ≠ OutOfFuel.
Proof.
  induction fuel as [|fuel IH]; intros σ it Hfuel; [lia|]. simpl.
  apply bind_not_cut.
  { apply bind_not_cut; [apply sentinel_eq_impl_not_cut|done]. }
  intros [|] σ1 _; [|done].
  apply bind_not_cut.
  { unfold deref. by destruct (it_seq it !! it_pos it). }
  intros el σ2 Hel. apply bind_not_cut; [|by intros [??] ??].
  apply IH. simpl. unfold deref in Hel.
  destruct (it_seq it !! it_pos it) eqn:Hlook; [|done].
  apply lookup_lt_Some in Hlook. lia.
Qed.

(** X5: a traversal always comes to an end within the comparisons its
    source allows: in every store and for every view object, it either
    returns or is undefined, and is never cut off by the fuel, which is one
    more than the length of the stored sequence. *)
Lemma range_for_not_cut Const this σ : range_for Const this σ ≠ OutOfFuel.
Proof.
  unfold range_for.
  apply bind_not_cut.
  { apply bind_not_cut; [|done]. unfold read_view. by destruct (σ !! this). }
  intros it σ1 _. apply bind_not_cut.
  { apply bind_not_cut; [unfold read_view; by destruct (σ1 !! this)|].
    intros v σ2 _. destruct (tidy_obj traits); [done|].
    apply bind_not_cut; [|done]. by destruct (value_ v). }
  intros e σ2 _. apply for_loop_not_cut. lia.
Qed.

(** First index at which a boolean test succeeds, below a known success. *)
Lemma least_true (f : nat → bool) n :
  f n = true → ∃ p, p ≤ n ∧ f p = true ∧ ∀ j, j < p → f j = false.
Proof.
  assert (∀ m, (∀ j, j < m → f j = false)
               ∨ ∃ p, p < m ∧ f p = true ∧ ∀ j, j < p → f j = false) as Hscan.
  { induction m as [|m [IH|(p & ? & ? & ?)]].
    - left. lia.
    - destruct (f m) eqn:Hm.
      + right. exists m. auto.
      + left. intros j Hj. destruct (decide (j = m)) as [->|]; [done|].
        apply IH. lia.
    - right. exists p. auto. }
  intros Hn. destruct (Hscan n) as [Hnone|(p & ? & ? & ?)].
  - exists n. auto.
  - exists p. split; [lia|auto].
Qed.

Lemma stops_at_length t xs : stops_at t xs (length xs) = true.
Proof. unfold stops_at. by rewrite bool_decide_eq_true_2. Qed.

Lemma stops_at_false t xs j e :
  xs !! j = Some e → equal_to t e = false → stops_at t xs j = false.
Proof.
  intros He Hne. unfold stops_at. rewrite He. simpl. rewrite Hne.
  rewrite bool_decide_eq_false_2; [done|].
  apply lookup_lt_Some in He. lia.
Qed.

Lemma stops_at_match t xs p e :
  xs !! p = Some e → equal_to t e = true → stops_at t xs p = true.
Proof. intros He Heq. apply stops_at_true. right. by exists e. Qed.

End properties.

(** ** Truncation at the first match *)

Section truncation.
Context {T Elem : Type} `{VT : ValueType T Elem}.
Implicit Types (σ : gmap loc (@take_before_view T Elem)) (xs : list Elem).
Implicit Types (x : T) (this : loc) (p : nat).

(** C1: when [x] occurs in [xs] and [p] is the least index whose element
    equals [x], traversing the view built from [xs] and [x] visits exactly
    the elements at indices [0, p), in order, and stops at [p]; nothing is
    assumed about the elements after [p]. *)
Theorem first_match_prefix σ this Const xs x p e :
  σ !! this = Some (take_before xs x) →
  xs !! p = Some e → equal_to x e = true →
  (∀ j e', j < p → xs !! j = Some e' → equal_to x e' = false) →
  range_for Const this σ = Ok ((take p xs, Iterator xs p), σ).
Proof.
  intros Hv He Heq Hleast.
  apply (range_for_run σ this (take_before xs x) x Const p Hv eq_refl); simpl.
  - apply lookup_lt_Some in He. unfold views_all. lia.
  - by apply stops_at_match with e.
  - intros j Hj.
    destruct (lookup_lt_is_Some_2 xs j) as [e' He'].
    { apply lookup_lt_Some in He. lia. }
    apply stops_at_false with e'; eauto.
Qed.

(** C4: when no element of [xs] equals [x], traversing the view built from
    [xs] and [x] visits all of [xs], in order, and stops at the end of
    [xs] itself. *)
Theorem absent_value_whole_sequence σ this Const xs x :
  σ !! this = Some (take_before xs x) →
  (∀ e, e ∈ xs → equal_to x e = false) →
  range_for Const this σ = Ok ((xs, Iterator xs (ranges_end Const xs)), σ).
Proof.
  intros Hv Habsent.
  pose proof (range_for_run σ this (take_before xs x) x Const (length xs)
                Hv eq_refl) as Hrun.
  simpl in Hrun. unfold views_all in Hrun. rewrite firstn_all in Hrun.
  apply Hrun; [done|apply stops_at_length|].
  intros j Hj. destruct (lookup_lt_is_Some_2 xs j Hj) as [e He].
  apply stops_at_false with e; [done|].
  apply Habsent. by apply list_elem_of_lookup_2 with j.
Qed.

(** C5: the adaptor applied to a mapped sequence truncates the mapped
    sequence: with [p] the least index such that [f (s !! p)] equals [x],
    the traversal visits the images of the first [p] elements of [s]. *)
Theorem take_before_after_map {A : Type} (f : A → Elem) (s : list A)
    σ this Const x p a :
  σ !! this = Some (take_before (f <$> s) x) →
  s !! p = Some a → equal_to x (f a) = true →
  (∀ j a', j < p → s !! j = Some a' → equal_to x (f a') = false) →
  range_for Const this σ = Ok ((f <$> take p s, Iterator (f <$> s) p), σ).
Proof.
  intros Hv Ha Heq Hleast. rewrite fmap_take.
  pose proof (lookup_lt_Some _ _ _ Ha) as Hp.
  apply (range_for_run σ this (take_before (f <$> s) x) x Const p Hv eq_refl);
    simpl; unfold views_all.
  - rewrite length_fmap. lia.
  - apply stops_at_match with (f a); [|done].
    by rewrite list_lookup_fmap, Ha.
  - intros j Hj.
    destruct (lookup_lt_is_Some_2 s j) as [a' Ha']; [lia|].
    apply stops_at_false with (f a'); [|by eauto].
    by rewrite list_lookup_fmap, Ha'.
Qed.

End truncation.

(** ** The end marker *)

Section markers.
Context {T Elem : Type} `{VT : ValueType T Elem}.
Implicit Types (σ : gmap loc (@take_before_view T Elem)) (xs : list Elem).
Implicit Types (x : T) (this : loc) (p : nat).

(** C2: for a cursor at index [p] of the source, dereferenceable or at
    the exhaustion point, the end marker of the view compares equal to it
    exactly when [p] is the exhaustion point or the element at [p] equals
    the sentinel value; the marker-vs-cursor order and the comparison with
    a cursor of the other constness give the same answer. *)
Theorem end_marker_eq_iff σ this Const xs x p :
  σ !! this = Some (take_before_view_ctor xs x) →
  p ≤ length xs →
  ∃ y b,
    view_end Const this σ = Ok (y, σ)
    ∧ sentinel_eq (Iterator xs p) y σ = Ok (b, σ)
    ∧ (b = true ↔ p = length xs ∨ ∃ e, xs !! p = Some e ∧ equal_to x e = true)
    ∧ sentinel_eq_rev y (Iterator xs p) σ = Ok (b, σ)
    ∧ sentinel_eq_other (Iterator xs p) y σ = Ok (b, σ).
Proof.
  intros Hv Hp.
  pose proof (end_marker_of σ this _ x Const Hv eq_refl) as Hy. simpl in Hy.
  exists (end_marker Const this xs), (stops_at x xs p).
  split; [apply (view_end_run σ this _ x Const Hv eq_refl)|].
  split; [by apply sentinel_eq_impl_run|].
  split; [apply stops_at_true|].
  split; [by apply sentinel_eq_impl_run|].
  unfold sentinel_eq_other. by apply sentinel_eq_impl_run.
Qed.

(** C7: for a tidy [T] (an empty type, whose objects carry no state), a
    stored value [t] and a dereferenceable cursor,
    the value-free comparison (which builds [T()] for the test) and the
    value-carrying comparison (which reads the value stored in the view)
    both return the same defined result, whatever true end the markers
    record. *)
Theorem value_free_eq_value_carrying σ this v t {C1 C2}
    (x : iterator C1) (el : Elem) (e : base_sentinel C2) :
  tidy_obj traits = true →
  σ !! this = Some v → value_ v = Some t →
  it_seq x !! it_pos x = Some el →
  sentinel_eq_impl true x (sentinel_ctor e) σ
  = Ok (base_sentinel_eq e x || equal_to t el, σ)
  ∧ sentinel_eq_impl false x (sentinel_ctor_value e (Some this)) σ
    = Ok (base_sentinel_eq e x || equal_to t el, σ).
Proof.
  intros Htidy Hv Ht Hx. unfold sentinel_eq_impl. simpl.
  destruct (base_sentinel_eq e x); [done|].
  rewrite (bind_Ok _ _ _ _ _ (load_run σ this v t Hv Ht)).
  rewrite (tidy_fresh t Htidy). unfold lift at 1, bind at 1.
  unfold deref. rewrite Hx. done.
Qed.

(** C8: converting a marker built for mutable access to the one for
    immutable access keeps the recorded true end and, for a non-tidy [T],
    the same pointer to the stored value (for a tidy [T] the pointer is not
    part of the marker and stays null); comparisons through the two markers
    agree; and there is no conversion from immutable to mutable. *)
Theorem sentinel_convert_preserves (s : sentinel false) :
  (∃ s' : sentinel true,
     sentinel_convert true s = Some s'
     ∧ (end_ s' : nat) = end_ s
     ∧ sentinel_value_ s' =
         (if tidy_obj traits then nullptr else sentinel_value_ s)
     ∧ ∀ σ C (x : iterator C),
         sentinel_eq_impl (tidy_obj traits) x s' σ
         = sentinel_eq_impl (tidy_obj traits) x s σ)
  ∧ (∀ c : sentinel true, sentinel_convert false c = None).
Proof.
  split; [|done]. eexists. split; [reflexivity|]. simpl.
  split; [done|]. split; [by destruct (tidy_obj traits)|].
  intros σ C x. by destruct (tidy_obj traits).
Qed.

End markers.

(** ** The adaptor *)

Section adaptor.
Context {T Elem : Type} {CC : CopyConstructible T}.


End adaptor.



(** ** Traversals leave the store alone *)

Lemma preserves_ret {Σ A} (a : A) : preserves_store (Σ:=Σ) (ret a).
Proof. intros σ b σ'. unfold ret. by intros [= _ ->]. Qed.

Lemma preserves_lift {Σ A} (o : outcome A) : preserves_store (Σ:=Σ) (lift o).
Proof. intros σ b σ'. unfold lift. destruct o; [by intros [= _ ->]|done..]. Qed.

Lemma preserves_bind {Σ A B} (m : St Σ A) (k : A → St Σ B) :
  preserves_store m → (∀ a, preserves_store (k a)) → preserves_store (bind m k).
Proof.
  intros Hm Hk σ b σ'. unfold bind.
  destruct (m σ) as [[a σ1]| |] eqn:Hrun; [|done..].
  intros Hrun'. apply Hm in Hrun as ->. by apply Hk in Hrun'.
Qed.

Create HintDb preserves.
#[export] Hint Resolve preserves_ret preserves_lift : preserves.

Section reiteration.
Context {T Elem : Type} `{VT : ValueType T Elem}.
Implicit Types (σ : gmap loc (@take_before_view T Elem)) (xs : list Elem).
Implicit Types (x : T) (this : loc) (p : nat).

Lemma preserves_read_view this :
  preserves_store (read_view (T:=T) (Elem:=Elem) this).
Proof.
  intros σ v σ'. unfold read_view. destruct (σ !! this); [|done].
  by intros [= _ ->].
Qed.

Lemma preserves_load (q : ptr) :
  preserves_store (load (T:=T) (Elem:=Elem) q).
Proof.
  destruct q as [a|]; simpl; [|auto with preserves].
  apply preserves_bind; auto using preserves_read_view with preserves.
Qed.

Lemma preserves_sentinel_eq_impl tidy {C1 C2} (it : iterator C1) (y : sentinel C2) :
  preserves_store (sentinel_eq_impl tidy it y).
Proof.
  unfold sentinel_eq_impl.
  destruct tidy, (base_sentinel_eq (end_ y) it); auto with preserves;
    repeat (apply preserves_bind; [auto using preserves_load with preserves|intros ?]);
    auto with preserves.
Qed.

Lemma preserves_sentinel_ne {Const} (it : iterator Const) (y : sentinel Const) :
  preserves_store (sentinel_ne it y).
Proof.
  apply preserves_bind; [apply preserves_sentinel_eq_impl|auto with preserves].
Qed.

Lemma preserves_view_begin Const this :
  preserves_store (view_begin (T:=T) (Elem:=Elem) Const this).
Proof.
  apply preserves_bind; auto using preserves_read_view with preserves.
Qed.

Lemma preserves_view_end Const this : preserves_store (view_end Const this).
Proof.
  apply preserves_bind; [apply preserves_read_view|intros v].
  destruct (tidy_obj traits); [auto with preserves|].
  apply preserves_bind; auto with preserves.
Qed.

Lemma preserves_for_loop fuel {Const} (it : iterator Const) (y : sentinel Const) :
  preserves_store (for_loop fuel it y).
Proof.
  revert it. induction fuel as [|fuel IH]; intros it; simpl; [auto with preserves|].
  apply preserves_bind; [apply preserves_sentinel_ne|intros [|]]; [|auto with preserves].
  apply preserves_bind; [auto with preserves|intros e].
  apply preserves_bind; [apply IH|intros [??]; auto with preserves].
Qed.

Lemma preserves_range_for Const this : preserves_store (range_for Const this).
Proof.
  apply preserves_bind; [apply preserves_view_begin|intros it].
  apply preserves_bind; [apply preserves_view_end|intros y].
  apply preserves_for_loop.
Qed.

(** Traversing a view built by the constructor always produces a result. *)
Lemma range_for_total σ this Const xs x :
  σ !! this = Some (take_before xs x) →
  ∃ r, range_for Const this σ = Ok (r, σ).
Proof.
  intros Hv.
  destruct (least_true (stops_at x xs) (length xs) (stops_at_length x xs))
    as (p & Hp & Hstop & Hgo).
  eexists. by apply (range_for_run σ this _ x Const p Hv eq_refl).
Qed.

(** C9: a traversal leaves the view object as it found it, so traversing
    the same view twice from its start gives the same elements (and the
    same stopping cursor) both times; and the traversal of a view built
    from a sequence and a value does produce a result. *)
Theorem reiteration_identical σ this Const :
  (∀ r σ', range_for Const this σ = Ok (r, σ') →
     σ' = σ ∧ range_for_twice Const this σ = Ok ((r, r), σ))
  ∧ (∀ xs x, σ !! this = Some (take_before xs x) →
     ∃ r, range_for Const this σ = Ok (r, σ)).
Proof.
  split; [|intros xs x; apply range_for_total].
  intros r σ' Hrun.
  pose proof (preserves_range_for Const this _ _ _ Hrun) as ->.
  split; [done|]. unfold range_for_twice.
  rewrite (bind_Ok _ _ _ _ _ Hrun). by rewrite (bind_Ok _ _ _ _ _ Hrun).
Qed.

End reiteration.

(** ** Default construction *)

Section default_construction.
Context {T Elem : Type} `{VT : ValueType T Elem}.

(** With a non-tidy [T], [end()] on a default-constructed view applies
    [*] to a box that holds no value. *)
Lemma default_view_end_nontidy (σ : gmap loc (@take_before_view T Elem)) this Const
    (V_init : list Elem) :
  tidy_obj traits = false →
  (let* _ := construct_at this (take_before_view_default V_init) in
   view_end Const this) σ = Undefined.
Proof.
  intros Htidy. unfold construct_at, bind at 1.
  unfold view_end.
  rewrite (bind_Ok _ _ _ _ _ (read_view_run _ this _ (lookup_insert_eq _ _ _))).
  by rewrite Htidy.
Qed.

End default_construction.

(** C10: [take_before_view<owning_view<vector<int>>, int>] is
    default-constructible, but its box holds no value afterwards, so
    [end()] has no defined result: the marker is never given a validly
    constructed stored value to read.  ([owning_view<vector<int>>()] holds
    no elements.) *)
Theorem default_view_int_end_undefined :
  take_before_view_default_requires (T:=Z) (Elem:=Z) owning_source = true
  ∧ value_ (take_before_view_default (T:=Z) (Elem:=Z) []) = None
  ∧ (let* _ := construct_at 0 (take_before_view_default (T:=Z) (Elem:=Z) []) in
     view_end false 0) ∅ = Undefined
  ∧ (let* _ := construct_at 0 (take_before_view_default (T:=Z) (Elem:=Z) []) in
     view_end true 0) ∅ = Undefined.
Proof. repeat split. Qed.

(** ** The scenarios of the specification and the tests *)

Section scenarios.
Local Open Scope Z_scope.

Example scenario_first_match :
  range_for false 0%nat (at0 (take_before [1;2;3;4;5] 3))
  = Ok (([1;2], Iterator [1;2;3;4;5] 2), at0 (take_before [1;2;3;4;5] 3)).
Proof. vm_compute. reflexivity. Qed.

Example scenario_empty_source :
  range_for true 0%nat (at0 (take_before [] 1))
  = Ok (([], Iterator [] 0), at0 (take_before [] 1)).
Proof. vm_compute. reflexivity. Qed.

Example scenario_immediate_match :
  range_for false 0%nat (at0 (take_before [1;2;3] 1))
  = Ok (([], Iterator [1;2;3] 0), at0 (take_before [1;2;3] 1)).
Proof. vm_compute. reflexivity. Qed.

Example scenario_tidy_constant :
  range_for (T:=unit) false 0%nat {[ 0%nat := take_before [1;2;3;4] () ]}
  = Ok (([1;2], Iterator [1;2;3;4] 2), {[ 0%nat := take_before [1;2;3;4] () ]}).
Proof. vm_compute. reflexivity. Qed.

(** C1 at [[1;2;3;2;4;2;5]] and [2]: only [1] is visited. *)
Lemma first_match_prefix_witness :
  range_for false 0%nat (at0 (take_before [1;2;3;2;4;2;5] 2))
  = Ok (([1], Iterator [1;2;3;2;4;2;5] 1%nat), at0 (take_before [1;2;3;2;4;2;5] 2)).
Proof.
  apply (first_match_prefix (at0 (take_before [1;2;3;2;4;2;5] 2)) 0%nat false
           [1;2;3;2;4;2;5] 2 1%nat 2).
  - vm_compute. reflexivity.
  - reflexivity.
  - reflexivity.
  - intros j e' Hj He'. destruct j as [|j]; [|lia].
    simpl in He'. injection He' as <-. reflexivity.
Defined.

(** C4 at [[1;2;3]] and [4]: everything is visited. *)
Lemma absent_value_whole_sequence_witness :
  range_for false 0%nat (at0 (take_before [1;2;3] 4))
  = Ok (([1;2;3], Iterator [1;2;3] 3%nat), at0 (take_before [1;2;3] 4)).
Proof.
  apply (absent_value_whole_sequence (at0 (take_before [1;2;3] 4)) 0%nat false
           [1;2;3] 4).
  - vm_compute. reflexivity.
  - intros e He. apply list_elem_of_In in He. simpl in He.
    destruct He as [<-|[<-|[<-|[]]]]; reflexivity.
Defined.

(** C5 at [[1;2;3;4;5]] doubled and [6]: [2] and [4] are visited. *)
Lemma take_before_after_map_witness :
  range_for false 0%nat (at0 (take_before (Z.mul 2 <$> [1;2;3;4;5]) 6))
  = Ok (([2;4], Iterator (Z.mul 2 <$> [1;2;3;4;5]) 2%nat),
        at0 (take_before (Z.mul 2 <$> [1;2;3;4;5]) 6)).
Proof.
  apply (take_before_after_map (Z.mul 2) [1;2;3;4;5]
           (at0 (take_before (Z.mul 2 <$> [1;2;3;4;5]) 6)) 0%nat false 6 2%nat 3).
  - vm_compute. reflexivity.
  - reflexivity.
  - reflexivity.
  - intros j a' Hj Ha'. destruct j as [|[|j]]; [| |lia];
      simpl in Ha'; injection Ha' as <-; reflexivity.
Defined.

(** C2 at the view of [[1;2;3]] and [2], cursor at index 1. *)
Lemma end_marker_eq_iff_witness :
  ∃ (y : sentinel false) (b : bool),
    view_end false 0%nat (at0 (take_before_view_ctor [1;2;3] 2))
    = Ok (y, at0 (take_before_view_ctor [1;2;3] 2))
    ∧ sentinel_eq (Iterator [1;2;3] 1%nat) y (at0 (take_before_view_ctor [1;2;3] 2))
      = Ok (b, at0 (take_before_view_ctor [1;2;3] 2))
    ∧ (b = true ↔
       1%nat = length [1;2;3] ∨ ∃ e, [1;2;3] !! 1%nat = Some e ∧ equal_to 2 e = true)
    ∧ sentinel_eq_rev y (Iterator [1;2;3] 1%nat) (at0 (take_before_view_ctor [1;2;3] 2))
      = Ok (b, at0 (take_before_view_ctor [1;2;3] 2))
    ∧ sentinel_eq_other (Iterator [1;2;3] 1%nat) y (at0 (take_before_view_ctor [1;2;3] 2))
      = Ok (b, at0 (take_before_view_ctor [1;2;3] 2)).
Proof.
  apply (end_marker_eq_iff (at0 (take_before_view_ctor [1;2;3] 2)) 0%nat false
           [1;2;3] 2 1%nat).
  - vm_compute. reflexivity.
  - simpl. lia.
Defined.

(** C3 at a borrowed source and [int]. *)
Lemma borrowed_iff_borrowed_source_and_tidy_witness :
  take_before_view_enable_borrowed_range borrowed_source int_traits = false.
Proof.
  apply (proj2 (borrowed_iff_borrowed_source_and_tidy borrowed_source int_traits)).
  reflexivity.
Defined.

(** C7 at the constant wrapper, sequence [[1;3;5]], cursor at index 1. *)
Lemma value_free_eq_value_carrying_witness :
  sentinel_eq_impl (T:=unit) true (Iterator (Const:=false) [1;3;5] 1%nat)
    (sentinel_ctor (Const:=false) 3%nat) {[ 0%nat := take_before_view_ctor [1;3;5] () ]}
  = Ok (base_sentinel_eq (C1:=false) 3%nat (Iterator (Const:=false) [1;3;5] 1%nat)
        || equal_to () 3,
        {[ 0%nat := take_before_view_ctor [1;3;5] () ]})
  ∧ sentinel_eq_impl (T:=unit) false (Iterator (Const:=false) [1;3;5] 1%nat)
      (sentinel_ctor_value (Const:=false) 3%nat (Some 0%nat))
      {[ 0%nat := take_before_view_ctor [1;3;5] () ]}
    = Ok (base_sentinel_eq (C1:=false) 3%nat (Iterator (Const:=false) [1;3;5] 1%nat)
          || equal_to () 3,
          {[ 0%nat := take_before_view_ctor [1;3;5] () ]}).
Proof.
  apply (value_free_eq_value_carrying (T:=unit)
           {[ 0%nat := take_before_view_ctor [1;3;5] () ]} 0%nat
           (take_before_view_ctor [1;3;5] ()) ()
           (Iterator (Const:=false) [1;3;5] 1%nat) 3 (3%nat : base_sentinel false)).
  - reflexivity.
  - vm_compute. reflexivity.
  - reflexivity.
  - reflexivity.
Defined.

(** C9 at the view of [[1;2;3;4;5]] and [3]. *)
Lemma reiteration_identical_witness :
  (at0 (take_before [1;2;3;4;5] 3) = at0 (take_before [1;2;3;4;5] 3)
   ∧ range_for_twice false 0%nat (at0 (take_before [1;2;3;4;5] 3))
     = Ok ((([1;2], Iterator [1;2;3;4;5] 2%nat), ([1;2], Iterator [1;2;3;4;5] 2%nat)),
           at0 (take_before [1;2;3;4;5] 3)))
  ∧ ∃ r, range_for false 0%nat (at0 (take_before [1;2;3;4;5] 3))
         = Ok (r, at0 (take_before [1;2;3;4;5] 3)).
Proof.
  split.
  - apply (proj1 (reiteration_identical (at0 (take_before [1;2;3;4;5] 3)) 0%nat false)
             ([1;2], Iterator [1;2;3;4;5] 2%nat) (at0 (take_before [1;2;3;4;5] 3))).
    vm_compute. reflexivity.
  - apply (proj2 (reiteration_identical (at0 (take_before [1;2;3;4;5] 3)) 0%nat false)
             [1;2;3;4;5] 3).
    vm_compute. reflexivity.
Defined.

End scenarios.

(** * Further properties of the view *)

(** ** Results of store-preserving computations *)

Lemma preserves_store_run {Σ A} (m : St Σ A) σ :
  preserves_store m →
  m σ = match result (m σ) with
        | Ok a => Ok (a, σ)
        | Undefined => Undefined
        | OutOfFuel => OutOfFuel
        end.
Proof.
  intros Hm. destruct (m σ) as [[a σ']| |] eqn:Hrun; simpl; [|done..].
  by rewrite (Hm _ _ _ Hrun).
Qed.

Lemma result_bind {Σ A B} (m : St Σ A) (k : A → St Σ B) σ :
  preserves_store m →
  result (bind m k σ) = match result (m σ) with
                        | Ok a => result (k a σ)
                        | Undefined => Undefined
                        | OutOfFuel => OutOfFuel
                        end.
Proof.
  intros Hm. unfold bind. rewrite (preserves_store_run m σ Hm).
  by destruct (result (m σ)).
Qed.

Section prefix.
Context {T Elem : Type} `{VT : ValueType T Elem}.
Implicit Types (σ : gmap loc (@take_before_view T Elem)) (xs ys : list Elem).
Implicit Types (x : T) (this : loc) (p : nat).

Lemma stops_at_cons_0 x e xs : stops_at x (e :: xs) 0 = equal_to x e.
Proof. reflexivity. Qed.

Lemma stops_at_cons_S x e xs p : stops_at x (e :: xs) (S p) = stops_at x xs p.
Proof.
  unfold stops_at. simpl. f_equal. apply bool_decide_ext. lia.
Qed.

(** The length of [prefix_before x xs] is the first index at which the
    marker compares equal. *)
Lemma prefix_before_stop x xs :
  length (prefix_before x xs) ≤ length xs
  ∧ stops_at x xs (length (prefix_before x xs)) = true
  ∧ (∀ j, j < length (prefix_before x xs) → stops_at x xs j = false)
  ∧ take (length (prefix_before x xs)) xs = prefix_before x xs.
Proof.
  induction xs as [|e xs (Hle & Hstop & Hgo & Htake)]; simpl.
  - repeat split; [done|]. intros j Hj. lia.
  - destruct (equal_to x e) eqn:He; simpl.
    + repeat split; [lia|by rewrite stops_at_cons_0|]. intros j Hj. lia.
    + repeat split; [lia|by rewrite stops_at_cons_S| |by rewrite Htake].
      intros [|j] Hj; [by rewrite stops_at_cons_0|].
      rewrite stops_at_cons_S. apply Hgo. lia.
Qed.

(** What a traversal of a constructed view can return. *)
Lemma range_for_inv σ this Const xs x r σ' :
  σ !! this = Some (take_before xs x) →
  range_for Const this σ = Ok (r, σ') →
  ∃ p, p ≤ length xs ∧ stops_at x xs p = true
       ∧ (∀ j, j < p → stops_at x xs j = false)
       ∧ r = (take p xs, Iterator xs p) ∧ σ' = σ.
Proof.
  intros Hv Hrun.
  destruct (least_true (stops_at x xs) (length xs) (stops_at_length x xs))
    as (p & Hp & Hstop & Hgo).
  pose proof (range_for_run σ this _ x Const p Hv eq_refl Hp Hstop Hgo) as Hrun'.
  simpl in Hrun'. unfold views_all in Hrun'. rewrite Hrun in Hrun'.
  injection Hrun' as -> ->. by exists p.
Qed.

(** X1: traversing the view built from [xs] and [x] returns exactly
    [prefix_before x xs], the elements before the first one equal to [x]
    (all of [xs] if there is none), and stops at the cursor just after
    them; the view object is left unchanged. *)
Theorem traversal_is_prefix_before σ this Const xs x :
  σ !! this = Some (take_before xs x) →
  range_for Const this σ
  = Ok ((prefix_before x xs, Iterator xs (length (prefix_before x xs))), σ).
Proof.
  intros Hv. destruct (prefix_before_stop x xs) as (Hle & Hstop & Hgo & Htake).
  pose proof (range_for_run σ this _ x Const _ Hv eq_refl Hle Hstop Hgo) as Hrun.
  simpl in Hrun. unfold views_all in Hrun. by rewrite Htake in Hrun.
Qed.

(** X2: the view is empty, in the sense that [begin() == end()] holds and
    a traversal visits nothing, exactly when the source is empty or its
    first element equals the value. *)
Theorem view_empty_iff σ this Const xs x :
  σ !! this = Some (take_before xs x) →
  ∃ b ys last,
    (let* it := view_begin Const this in
     let* y := view_end Const this in
     sentinel_eq it y) σ = Ok (b, σ)
    ∧ range_for Const this σ = Ok ((ys, last), σ)
    ∧ (b = true ↔ xs = [] ∨ ∃ e, head xs = Some e ∧ equal_to x e = true)
    ∧ (ys = [] ↔ b = true).
Proof.
  intros Hv.
  exists (stops_at x xs 0), (prefix_before x xs),
    (Iterator xs (length (prefix_before x xs))).
  split.
  { rewrite (bind_Ok _ _ _ _ _ (view_begin_run _ _ _ Const Hv)).
    rewrite (bind_Ok _ _ _ _ _ (view_end_run _ _ _ x Const Hv eq_refl)).
    apply sentinel_eq_impl_run; [|simpl; unfold views_all; lia].
    apply (end_marker_of σ this _ x Const Hv eq_refl). }
  split.
  { destruct (prefix_before_stop x xs) as (Hle & Hstop & Hgo & Htake).
    pose proof (range_for_run σ this _ x Const _ Hv eq_refl Hle Hstop Hgo) as Hrun.
    simpl in Hrun. unfold views_all in Hrun. by rewrite Htake in Hrun. }
  destruct xs as [|e xs]; simpl.
  - split; [|done]. split; [by left|done].
  - rewrite stops_at_cons_0. split.
    + split; [intros He; right; by exists e|].
      intros [?|(e' & [= <-] & ?)]; done.
    + by destruct (equal_to x e).
Qed.

(** X3: a traversal never visits an element equal to the value, and what
    it visits is a prefix of the source. *)
Theorem traversal_never_yields_value σ this Const xs x ys last σ' :
  σ !! this = Some (take_before xs x) →
  range_for Const this σ = Ok ((ys, last), σ') →
  (∀ e, e ∈ ys → equal_to x e = false) ∧ ys `prefix_of` xs.
Proof.
  intros Hv Hrun.
  destruct (range_for_inv σ this Const xs x _ _ Hv Hrun)
    as (p & Hp & Hstop & Hgo & [= -> ->] & ->).
  split; [|apply prefix_take].
  intros e (j & Hj)%list_elem_of_lookup_1.
  apply lookup_take_Some in Hj as [Hj Hlt].
  specialize (Hgo j Hlt). unfold stops_at in Hgo.
  rewrite Hj in Hgo. simpl in Hgo. by apply orb_false_iff in Hgo as [_ ?].
Qed.

(** X4: a traversal stops at the cursor whose index is the number of
    elements visited, and that cursor is either the end of the source or
    at an element equal to the value. *)
Theorem traversal_stops_at_end_or_match σ this Const xs x ys last σ' :
  σ !! this = Some (take_before xs x) →
  range_for Const this σ = Ok ((ys, last), σ') →
  it_seq last = xs ∧ it_pos last = length ys
  ∧ (it_pos last = length xs
     ∨ ∃ e, xs !! it_pos last = Some e ∧ equal_to x e = true).
Proof.
  intros Hv Hrun.
  destruct (range_for_inv σ this Const xs x _ _ Hv Hrun)
    as (p & Hp & Hstop & Hgo & [= -> ->] & ->).
  simpl. split; [done|]. split; [rewrite length_take; lia|].
  by apply stops_at_true.
Qed.

End prefix.

(** ** Markers, the view object and its lifetime *)

Section lifetime.
Context {T Elem : Type} `{VT : ValueType T Elem}.
Implicit Types (σ : gmap loc (@take_before_view T Elem)) (xs ys : list Elem).
Implicit Types (x t : T) (this : loc) (p : nat).

(** What [end] can return. *)
Lemma view_end_inv σ this Const y σ' :
  view_end Const this σ = Ok (y, σ') →
  ∃ v, σ !! this = Some v ∧ σ' = σ
       ∧ y = Sentinel (ranges_end Const (base_ v))
               (if tidy_obj traits then nullptr else Some this)
       ∧ (tidy_obj traits = false → is_Some (value_ v)).
Proof.
  unfold view_end, read_view, bind, lift, ret, box_deref.
  destruct (σ !! this) as [v|]; [|done].
  destruct (tidy_obj traits).
  - intros [= <- <-]. exists v. by repeat split.
  - destruct (value_ v) as [t|] eqn:Ht; [|done].
    intros [= <- <-]. exists v. repeat split; by eauto.
Qed.

(** X6: converting the marker returned by the non-const [end()] gives
    exactly the marker returned by [end() const] on the same view. *)
Theorem convert_end_is_const_end σ this y σ' :
  view_end false this σ = Ok (y, σ') →
  ∃ y', sentinel_convert true y = Some y'
        ∧ view_end true this σ = Ok (y', σ').
Proof.
  intros Hend.
  destruct (view_end_inv _ _ _ _ _ Hend) as (v & Hv & -> & -> & Hval).
  eexists. split; [reflexivity|].
  unfold view_end. rewrite (bind_Ok _ _ _ _ _ (read_view_run _ _ _ Hv)).
  destruct (tidy_obj traits); [done|].
  destruct (Hval eq_refl) as [t ->]. done.
Qed.


(** A comparison depends on the store only through the value the marker
    points to, and not at all for a tidy [T]. *)
Lemma sentinel_eq_impl_ext tidy {C1 C2} (it : iterator C1) (y : sentinel C2) σ1 σ2 :
  (tidy = false →
   result (load (sentinel_value_ y) σ1) = result (load (sentinel_value_ y) σ2)) →
  result (sentinel_eq_impl tidy it y σ1) = result (sentinel_eq_impl tidy it y σ2).
Proof.
  intros Hload. unfold sentinel_eq_impl.
  destruct tidy, (base_sentinel_eq (end_ y) it); try done.
  - unfold bind, lift, ret. destruct fresh_T; [|done..]. by destruct (deref it).
  - rewrite !result_bind by apply preserves_load. rewrite Hload by done.
    destruct (result (load (sentinel_value_ y) σ2)); [|done..].
    unfold bind, lift, ret. by destruct (deref it).
Qed.

Lemma for_loop_ext {Const} (y : sentinel Const) σ1 σ2 fuel :
  (tidy_obj traits = false →
   result (load (sentinel_value_ y) σ1) = result (load (sentinel_value_ y) σ2)) →
  ∀ it : iterator Const,
    result (for_loop fuel it y σ1) = result (for_loop fuel it y σ2).
Proof.
  intros Hload. induction fuel as [|fuel IH]; intros it; simpl; [done|].
  rewrite !result_bind by apply preserves_sentinel_ne.
  unfold sentinel_ne, sentinel_eq.
  rewrite !result_bind by apply preserves_sentinel_eq_impl.
  rewrite (sentinel_eq_impl_ext _ it y σ1 σ2 Hload).
  destruct (result (sentinel_eq_impl (tidy_obj traits) it y σ2)) as [[|]| |];
    simpl; try done.
  rewrite !result_bind by apply preserves_lift.
  unfold lift. destruct (deref it) as [e| |]; simpl; [|done..].
  rewrite !result_bind by apply preserves_for_loop.
  rewrite IH. by destruct (result (for_loop fuel (incr it) y σ2)) as [[??]| |].
Qed.

Lemma view_begin_result σ this Const :
  result (view_begin Const this σ)
  = match σ !! this with
    | Some v => Ok (ranges_begin Const (base_ v))
    | None => Undefined
    end.
Proof. unfold view_begin, read_view, bind, ret. by destruct (σ !! this). Qed.

Lemma view_end_result σ this Const :
  result (view_end Const this σ)
  = match σ !! this with
    | Some v =>
        if tidy_obj traits then Ok (sentinel_ctor (ranges_end Const (base_ v)))
        else match value_ v with
             | Some _ =>
                 Ok (sentinel_ctor_value (ranges_end Const (base_ v)) (Some this))
             | None => Undefined
             end
    | None => Undefined
    end.
Proof.
  unfold view_end, read_view, bind, ret, lift, box_deref.
  destruct (σ !! this) as [v|]; [|done].
  destruct (tidy_obj traits); [done|]. by destruct (value_ v).
Qed.

Lemma view_end_tidy_run σ this v Const :
  tidy_obj traits = true → σ !! this = Some v →
  view_end Const this σ = Ok (sentinel_ctor (ranges_end Const (base_ v)), σ).
Proof.
  intros Htidy Hv. unfold view_end.
  rewrite (bind_Ok _ _ _ _ _ (read_view_run _ _ _ Hv)). by rewrite Htidy.
Qed.

(** For a tidy [T] a traversal reads the stored sequence only. *)
Lemma tidy_range_for_ext σ σ' this v v' Const :
  tidy_obj traits = true →
  σ !! this = Some v → σ' !! this = Some v' → base_ v = base_ v' →
  result (range_for Const this σ) = result (range_for Const this σ').
Proof.
  intros Htidy Hv Hv' Hbase. unfold range_for.
  rewrite !result_bind by apply preserves_view_begin.
  rewrite !view_begin_result, Hv, Hv', Hbase.
  rewrite !result_bind by apply preserves_view_end.
  rewrite !view_end_result, Hv, Hv', Hbase, Htidy.
  apply for_loop_ext. by rewrite Htidy.
Qed.

(** X8: for a tidy [T] the marker returned by [end()] holds no pointer
    into the view, and a traversal never reads the value box: two view
    objects that store the same sequence traverse alike, whatever value
    either box holds and whether it holds one at all. *)
Theorem tidy_traversal_ignores_box σ σ' this v v' Const :
  tidy_obj traits = true →
  σ !! this = Some v → σ' !! this = Some v' → base_ v = base_ v' →
  view_end Const this σ = Ok (sentinel_ctor (ranges_end Const (base_ v)), σ)
  ∧ sentinel_value_ (sentinel_ctor (Const:=Const) (ranges_end Const (base_ v)))
    = nullptr
  ∧ result (range_for Const this σ) = result (range_for Const this σ').
Proof.
  intros Htidy Hv Hv' Hbase.
  split; [by apply view_end_tidy_run|]. split; [done|].
  by apply tidy_range_for_ext with v v'.
Qed.

(** X9: for a non-tidy [T] the marker points into the view: once the view
    object has been destroyed, comparing the marker with a cursor that is
    not at the end of the source is undefined. *)
Theorem nontidy_marker_dangles σ this Const xs t p :
  tidy_obj traits = false →
  σ !! this = Some (take_before xs t) →
  p < length xs →
  (let* y := view_end Const this in
   let* _ := destroy_at this in
   sentinel_eq (Iterator xs p) y) σ = Undefined.
Proof.
  intros Htidy Hv Hp.
  rewrite (bind_Ok _ _ _ _ _ (view_end_run _ _ _ t Const Hv eq_refl)).
  unfold destroy_at, bind at 1. unfold end_marker, sentinel_eq, sentinel_eq_impl.
  rewrite Htidy. simpl. unfold base_sentinel_eq, ranges_end, views_all. simpl.
  rewrite bool_decide_eq_false_2 by lia.
  unfold load, read_view, bind. by rewrite lookup_delete_eq.
Qed.


(** X11: objects at other addresses do not matter to a traversal:
    constructing (or overwriting) a view at another address leaves the
    result of traversing the view at [this] unchanged. *)
Theorem traversal_frame σ this other w Const :
  this ≠ other →
  result (range_for Const this (<[other := w]> σ))
  = result (range_for Const this σ).
Proof.
  intros Hne. unfold range_for.
  rewrite !result_bind by apply preserves_view_begin.
  rewrite !view_begin_result, lookup_insert_ne by done.
  destruct (σ !! this) as [v|] eqn:Hv; [|done].
  rewrite !result_bind by apply preserves_view_end.
  rewrite !view_end_result, lookup_insert_ne, Hv by done.
  destruct (tidy_obj traits) eqn:Htidy.
  - apply for_loop_ext. by rewrite Htidy.
  - destruct (value_ v); [|done].
    apply for_loop_ext. intros _. simpl.
    rewrite !result_bind by apply preserves_read_view.
    unfold read_view. rewrite lookup_insert_ne, Hv by done. simpl.
    unfold lift. by destruct (box_deref (value_ v)).
Qed.

(** X12: with a tidy [T] a default-constructed view is usable although
    its value box is empty: [end()] is defined, and a traversal visits the
    elements of [V()] before the first one that [T()] compares equal to
    (nothing when [V()] is empty). *)
Theorem default_view_tidy_traversal σ this Const (V_init : list Elem) t :
  tidy_obj traits = true →
  (let* _ := construct_at this (take_before_view_default V_init) in
   range_for Const this) σ
  = Ok ((prefix_before t V_init,
         Iterator V_init (length (prefix_before t V_init))),
        <[this := take_before_view_default V_init]> σ).
Proof.
  intros Htidy. unfold construct_at, bind at 1.
  set (σ0 := <[this := take_before_view_default V_init]> σ).
  set (σ1 := <[this := take_before V_init t]> σ).
  assert (σ0 !! this = Some (take_before_view_default V_init)) as H0
    by apply lookup_insert_eq.
  assert (σ1 !! this = Some (take_before V_init t)) as H1
    by apply lookup_insert_eq.
  pose proof (tidy_range_for_ext σ0 σ1 this _ _ Const Htidy H0 H1 eq_refl) as Hext.
  destruct (prefix_before_stop t V_init) as (Hle & Hstop & Hgo & Htake).
  pose proof (range_for_run σ1 this _ t Const _ H1 eq_refl Hle Hstop Hgo) as Hrun.
  simpl in Hrun. unfold views_all in Hrun. rewrite Htake in Hrun.
  rewrite Hrun in Hext. simpl in Hext.
  rewrite (preserves_store_run _ σ0 (preserves_range_for Const this)).
  by rewrite Hext.
Qed.

End lifetime.

(** ** The view over a cursor with no reachable end *)

Section prefix_match.
Context {T Elem : Type} `{VT : ValueType T Elem}.

(** When some element equals [x], [prefix_before x xs] ends just before the
    first such element. *)
Lemma prefix_before_match (x : T) (xs : list Elem) :
  (∃ e, e ∈ xs ∧ equal_to x e = true) →
  ∃ e, xs !! length (prefix_before x xs) = Some e ∧ equal_to x e = true
       ∧ (∀ j e', j < length (prefix_before x xs) → xs !! j = Some e' →
                  equal_to x e' = false)
       ∧ take (length (prefix_before x xs)) xs = prefix_before x xs.
Proof.
  induction xs as [|a xs IH]; intros (e & Hin & He).
  - by apply elem_of_nil in Hin.
  - simpl. destruct (equal_to x a) eqn:Ha; simpl.
    + exists a. repeat split; [done|]. intros j e' Hj. lia.
    + apply elem_of_cons in Hin as [->|Hin]; [congruence|].
      destruct IH as (e0 & Hlook & He0 & Hgo & Htake); [by exists e|].
      exists e0. repeat split; [done|done| |by rewrite Htake].
      intros [|j] e' Hj Hl; simpl in Hl; [by injection Hl as <-|].
      apply (Hgo j e'); [lia|done].
Qed.

End prefix_match.

Section unbounded_properties.
Context {T Elem : Type} `{VT : ValueType T Elem}.
Implicit Types (σ : gmap loc (@Unbounded.take_before_view T Elem)).
Implicit Types (buf : list Elem) (x t : T) (this : loc) (i p : nat).

Lemma u_read_view_run σ this v :
  σ !! this = Some v → Unbounded.read_view this σ = Ok (v, σ).
Proof. unfold Unbounded.read_view. by intros ->. Qed.

Lemma u_view_begin_run σ this v :
  σ !! this = Some v →
  Unbounded.view_begin this σ = Ok (Unbounded.ranges_begin (Unbounded.base_ v), σ).
Proof.
  intros Hv. unfold Unbounded.view_begin.
  by rewrite (bind_Ok _ _ _ _ _ (u_read_view_run _ _ _ Hv)).
Qed.

Lemma u_view_end_run σ this v t :
  σ !! this = Some v → Unbounded.value_ v = Some t →
  Unbounded.view_end this σ
  = Ok (Unbounded.Sentinel (Unbounded.ranges_end (Unbounded.base_ v))
          (if tidy_obj traits then nullptr else Some this), σ).
Proof.
  intros Hv Ht. unfold Unbounded.view_end.
  rewrite (bind_Ok _ _ _ _ _ (u_read_view_run _ _ _ Hv)).
  destruct (tidy_obj traits); [done|]. by rewrite Ht.
Qed.

(** The comparison through the marker that [end] builds for a view
    holding [t]: the element under the cursor against [t], and undefined
    once the cursor has left the buffer. *)
Lemma u_sentinel_ne_run σ this v t u buf p :
  σ !! this = Some v → Unbounded.value_ v = Some t →
  Unbounded.sentinel_ne (Iterator buf p)
    (Unbounded.Sentinel u (if tidy_obj traits then nullptr else Some this)) σ
  = match buf !! p with
    | Some e => Ok (negb (equal_to t e), σ)
    | None => Undefined
    end.
Proof.
  intros Hv Ht.
  unfold Unbounded.sentinel_ne, Unbounded.sentinel_eq, Unbounded.sentinel_eq_impl.
  destruct (tidy_obj traits) eqn:Htidy; simpl.
  - rewrite (tidy_fresh t Htidy). unfold deref, bind, lift, ret. simpl.
    by destruct (buf !! p).
  - unfold Unbounded.load, Unbounded.read_view, deref, box_deref, bind, lift, ret.
    rewrite Hv, Ht. simpl. by destruct (buf !! p).
Qed.

Lemma u_for_loop_run σ this v t u buf p e :
  σ !! this = Some v → Unbounded.value_ v = Some t →
  buf !! p = Some e → equal_to t e = true →
  ∀ fuel i, i ≤ p →
    (∀ j e', i ≤ j < p → buf !! j = Some e' → equal_to t e' = false) →
    p - i < fuel →
    Unbounded.for_loop fuel (Iterator buf i)
      (Unbounded.Sentinel u (if tidy_obj traits then nullptr else Some this)) σ
    = Ok ((take (p - i) (drop i buf), Iterator buf p), σ).
Proof.
  intros Hv Ht He Heq. induction fuel as [|fuel IH]; intros i Hi Hgo Hfuel; [lia|].
  simpl. unfold bind at 1. rewrite (u_sentinel_ne_run σ this v t u buf i Hv Ht).
  destruct (decide (i = p)) as [->|Hne].
  - rewrite He, Heq. simpl. by rewrite Nat.sub_diag.
  - destruct (lookup_lt_is_Some_2 buf i) as [a Ha].
    { apply lookup_lt_Some in He. lia. }
    rewrite Ha, (Hgo i a) by (done || lia). simpl.
    unfold deref at 1. simpl. rewrite Ha.
    unfold lift at 1, bind at 1. unfold incr. simpl.
    rewrite (bind_Ok _ _ _ _ _
               (IH (S i) ltac:(lia) ltac:(intros j e' ? ?; apply (Hgo j e'); [lia|done]) ltac:(lia))).
    unfold ret. rewrite (drop_S _ _ _ Ha).
    by replace (p - i) with (S (p - S i)) by lia.
Qed.

Lemma u_for_loop_runs_off σ this v t u buf :
  σ !! this = Some v → Unbounded.value_ v = Some t →
  ∀ fuel i,
    (∀ j e, i ≤ j → buf !! j = Some e → equal_to t e = false) →
    length buf - i < fuel →
    Unbounded.for_loop fuel (Iterator buf i)
      (Unbounded.Sentinel u (if tidy_obj traits then nullptr else Some this)) σ
    = Undefined.
Proof.
  intros Hv Ht. induction fuel as [|fuel IH]; intros i Hnone Hfuel; [lia|].
  simpl. unfold bind at 1.
  rewrite (u_sentinel_ne_run σ this v t u buf i Hv Ht).
  destruct (buf !! i) as [a|] eqn:Ha; [|done].
  rewrite (Hnone i a) by (done || lia). simpl.
  unfold deref at 1. simpl. rewrite Ha.
  unfold lift at 1, bind at 1. unfold incr. simpl.
  unfold bind. rewrite IH; [done| |].
  - intros j e Hj. apply Hnone. lia.
  - apply lookup_lt_Some in Ha. lia.
Qed.

(** X13: over a cursor [i] into a buffer that holds an element equal to
    [x] at or after [i], the view built by [take_before(i, x)] visits
    exactly the elements from [i] up to the first such element, and stops
    there, without ever looking past it. *)
Theorem unbounded_stops_at_terminator σ this buf i x :
  σ !! this = Some (Unbounded.take_before (Iterator buf i) x) →
  (∃ e, e ∈ drop i buf ∧ equal_to x e = true) →
  Unbounded.range_for this σ
  = Ok ((prefix_before x (drop i buf),
         Iterator buf (i + length (prefix_before x (drop i buf)))), σ).
Proof.
  intros Hv Hex.
  destruct (prefix_before_match x (drop i buf) Hex) as (e & Hlook & He & Hgo & Htake).
  set (n := length (prefix_before x (drop i buf))) in *.
  rewrite lookup_drop in Hlook.
  unfold Unbounded.range_for.
  rewrite (bind_Ok _ _ _ _ _ (u_view_begin_run _ _ _ Hv)).
  rewrite (bind_Ok _ _ _ _ _ (u_view_end_run _ _ _ x Hv eq_refl)).
  simpl.
  pose proof (u_for_loop_run σ this _ x Unbounded.unreachable_sentinel buf (i + n) e
                Hv eq_refl Hlook He (S (length buf - i)) i) as Hrun.
  replace (i + n - i) with n in Hrun by lia. rewrite Htake in Hrun.
  apply Hrun; [lia| |].
  - intros j e' [Hij Hjn] Hj. apply (Hgo (j - i) e'); [lia|].
    rewrite lookup_drop. by replace (i + (j - i)) with j by lia.
  - apply lookup_lt_Some in Hlook. lia.
Qed.

(** X14: over a cursor into a buffer that holds no element equal to [x]
    at or after the cursor, the traversal has no defined result: the
    unreachable end never stops it and it reads past the buffer. *)
Theorem unbounded_without_terminator_undefined σ this buf i x :
  σ !! this = Some (Unbounded.take_before (Iterator buf i) x) →
  (∀ e, e ∈ drop i buf → equal_to x e = false) →
  Unbounded.range_for this σ = Undefined.
Proof.
  intros Hv Hnone. unfold Unbounded.range_for.
  rewrite (bind_Ok _ _ _ _ _ (u_view_begin_run _ _ _ Hv)).
  rewrite (bind_Ok _ _ _ _ _ (u_view_end_run _ _ _ x Hv eq_refl)).
  apply (u_for_loop_runs_off σ this _ x Unbounded.unreachable_sentinel buf
           Hv eq_refl (S (length buf - i)) i); [|lia].
  intros j e Hj Hlook. apply Hnone.
  apply list_elem_of_lookup_2 with (j - i).
  rewrite lookup_drop. by replace (i + (j - i)) with j by lia.
Qed.

End unbounded_properties.

(** ** The further properties at concrete views *)

Section further_scenarios.
Local Open Scope Z_scope.

Lemma traversal_is_prefix_before_witness :
  range_for false 0%nat (at0 (take_before [1;2;3;4;5] 3))
  = Ok ((prefix_before 3 [1;2;3;4;5],
         Iterator [1;2;3;4;5] (length (prefix_before 3 [1;2;3;4;5]))),
        at0 (take_before [1;2;3;4;5] 3)).
Proof.
  apply (traversal_is_prefix_before (at0 (take_before [1;2;3;4;5] 3)) 0%nat false
           [1;2;3;4;5] 3).
  vm_compute. reflexivity.
Defined.

Lemma view_empty_iff_witness :
  ∃ b ys last,
    (let* it := view_begin false 0%nat in
     let* y := view_end false 0%nat in
     sentinel_eq it y) (at0 (take_before [1;2;3] 1))
    = Ok (b, at0 (take_before [1;2;3] 1))
    ∧ range_for false 0%nat (at0 (take_before [1;2;3] 1))
      = Ok ((ys, last), at0 (take_before [1;2;3] 1))
    ∧ (b = true ↔ [1;2;3] = [] ∨ ∃ e, head [1;2;3] = Some e ∧ equal_to 1 e = true)
    ∧ (ys = [] ↔ b = true).
Proof.
  apply (view_empty_iff (at0 (take_before [1;2;3] 1)) 0%nat false [1;2;3] 1).
  vm_compute. reflexivity.
Defined.

Lemma traversal_never_yields_value_witness :
  (∀ e, e ∈ [1;2] → equal_to 3 e = false) ∧ [1;2] `prefix_of` [1;2;3;4;5].
Proof.
  apply (traversal_never_yields_value (at0 (take_before [1;2;3;4;5] 3)) 0%nat false
           [1;2;3;4;5] 3 [1;2] (Iterator [1;2;3;4;5] 2%nat)
           (at0 (take_before [1;2;3;4;5] 3))).
  - vm_compute. reflexivity.
  - vm_compute. reflexivity.
Defined.

Lemma traversal_stops_at_end_or_match_witness :
  it_seq (Iterator (Const:=false) [1;2;3;4;5] 2%nat) = [1;2;3;4;5]
  ∧ it_pos (Iterator (Const:=false) [1;2;3;4;5] 2%nat) = length [1;2]
  ∧ (it_pos (Iterator (Const:=false) [1;2;3;4;5] 2%nat) = length [1;2;3;4;5]
     ∨ ∃ e, [1;2;3;4;5] !! it_pos (Iterator (Const:=false) [1;2;3;4;5] 2%nat) = Some e
            ∧ equal_to 3 e = true).
Proof.
  apply (traversal_stops_at_end_or_match (at0 (take_before [1;2;3;4;5] 3)) 0%nat false
           [1;2;3;4;5] 3 [1;2] (Iterator [1;2;3;4;5] 2%nat)
           (at0 (take_before [1;2;3;4;5] 3))).
  - vm_compute. reflexivity.
  - vm_compute. reflexivity.
Defined.

Lemma convert_end_is_const_end_witness :
  ∃ y', sentinel_convert (T:=Z) (Elem:=Z) true
          (Sentinel (Const:=false) 3%nat (Some 0%nat)) = Some y'
        ∧ view_end true 0%nat (at0 (take_before [1;2;3] 2))
          = Ok (y', at0 (take_before [1;2;3] 2)).
Proof.
  apply (convert_end_is_const_end (at0 (take_before [1;2;3] 2)) 0%nat
           (Sentinel 3%nat (Some 0%nat)) (at0 (take_before [1;2;3] 2))).
  vm_compute. reflexivity.
Defined.


Lemma tidy_traversal_ignores_box_witness :
  view_end (T:=unit) false 0%nat {[ 0%nat := take_before_view_default [1;3;5] ]}
  = Ok (sentinel_ctor (ranges_end false (base_ (take_before_view_default (T:=unit) [1;3;5]))),
        {[ 0%nat := take_before_view_default [1;3;5] ]})
  ∧ sentinel_value_
      (sentinel_ctor (Const:=false)
         (ranges_end false (base_ (take_before_view_default (T:=unit) [1;3;5]))))
    = nullptr
  ∧ result (range_for (T:=unit) false 0%nat {[ 0%nat := take_before_view_default [1;3;5] ]})
    = result (range_for (T:=unit) false 0%nat {[ 0%nat := take_before [1;3;5] () ]}).
Proof.
  apply (tidy_traversal_ignores_box (T:=unit)
           {[ 0%nat := take_before_view_default [1;3;5] ]}
           {[ 0%nat := take_before [1;3;5] () ]} 0%nat
           (take_before_view_default [1;3;5]) (take_before [1;3;5] ()) false).
  - reflexivity.
  - vm_compute. reflexivity.
  - vm_compute. reflexivity.
  - reflexivity.
Defined.

Lemma nontidy_marker_dangles_witness :
  (let* y := view_end false 0%nat in
   let* _ := destroy_at 0%nat in
   sentinel_eq (Iterator [1;2;3] 0%nat) y) (at0 (take_before [1;2;3] 2))
  = Undefined.
Proof.
  apply (nontidy_marker_dangles (at0 (take_before [1;2;3] 2)) 0%nat false
           [1;2;3] 2 0%nat).
  - reflexivity.
  - vm_compute. reflexivity.
  - simpl. lia.
Defined.


Lemma traversal_frame_witness :
  result (range_for false 0%nat
            (<[1%nat := take_before [7;8] 8]> (at0 (take_before [1;2;3] 2))))
  = result (range_for false 0%nat (at0 (take_before [1;2;3] 2))).
Proof.
  apply (traversal_frame (at0 (take_before [1;2;3] 2)) 0%nat 1%nat
           (take_before [7;8] 8) false).
  lia.
Defined.

(** A default-constructed view whose [V()] holds the one element 0, as
    [single_view<int>()] does, with the constant wrapper for 3. *)
Lemma default_view_tidy_traversal_witness :
  (let* _ := construct_at 0%nat (take_before_view_default (T:=unit) [0]) in
   range_for false 0%nat) ∅
  = Ok ((prefix_before () [0], Iterator [0] (length (prefix_before () [0]))),
        <[0%nat := take_before_view_default [0]]> ∅).
Proof.
  apply (default_view_tidy_traversal (T:=unit) (Elem:=Z) ∅ 0%nat false [0] ()).
  reflexivity.
Defined.

Example default_view_single_tidy :
  (let* _ := construct_at 0%nat (take_before_view_default (T:=unit) [0]) in
   range_for false 0%nat) ∅
  = Ok (([0], Iterator [0] 1%nat), <[0%nat := take_before_view_default [0]]> ∅).
Proof. vm_compute. reflexivity. Qed.

(** The characters of ["One?Two"] and the code of ['?']. *)
Lemma unbounded_stops_at_terminator_witness :
  Unbounded.range_for 0%nat
    {[ 0%nat := Unbounded.take_before (Iterator [79;110;101;63;84;119;111] 0%nat) 63 ]}
  = Ok ((prefix_before 63 (drop 0 [79;110;101;63;84;119;111]),
         Iterator [79;110;101;63;84;119;111]
           (Nat.add 0 (length (prefix_before 63 (drop 0 [79;110;101;63;84;119;111]))))),
        {[ 0%nat := Unbounded.take_before (Iterator [79;110;101;63;84;119;111] 0%nat) 63 ]}).
Proof.
  apply (unbounded_stops_at_terminator
           {[ 0%nat := Unbounded.take_before (Iterator [79;110;101;63;84;119;111] 0%nat) 63 ]}
           0%nat [79;110;101;63;84;119;111] 0%nat 63).
  - vm_compute. reflexivity.
  - exists 63. split; [|reflexivity].
    apply list_elem_of_In. simpl. tauto.
Defined.

Lemma unbounded_without_terminator_undefined_witness :
  Unbounded.range_for 0%nat
    {[ 0%nat := Unbounded.take_before (Iterator [1;2;3] 1%nat) 1 ]}
  = Undefined.
Proof.
  apply (unbounded_without_terminator_undefined
           {[ 0%nat := Unbounded.take_before (Iterator [1;2;3] 1%nat) 1 ]}
           0%nat [1;2;3] 1%nat 1).
  - vm_compute. reflexivity.
  - intros e He. apply list_elem_of_In in He. simpl in He.
    destruct He as [<-|[<-|[]]]; reflexivity.
Defined.

Example unbounded_one_two :
  Unbounded.range_for 0%nat
    {[ 0%nat := Unbounded.take_before (Iterator [79;110;101;63;84;119;111] 0%nat) 63 ]}
  = Ok (([79;110;101], Iterator [79;110;101;63;84;119;111] 3%nat),
        {[ 0%nat := Unbounded.take_before (Iterator [79;110;101;63;84;119;111] 0%nat) 63 ]}).
Proof. vm_compute. reflexivity. Qed.

End further_scenarios.
